(** * grada: the metric ring buffer and the metrics registry (metrics.go)

    A shallow embedding of [Metric] (a ring buffer of [Count]s) and of
    [Metrics] (the map from target names to metric buffers), with the
    properties of the buffer's snapshot and of the registry's life cycle.

    Conventions of the embedding:
    - Go's [int] and [int64] are 64-bit two's complement integers, carried
      as [Z] with the wrap-around of every addition written out;
    - a run-time panic is a value of [Go.result], never an [error];
    - an [error] is [option string]: [None] is Go's [nil] error, [Some s]
      the error made by [errors.New(s)];
    - a [*Metric] is a location in a heap of [Metric] values, or [nil];
    - the mutexes are not modelled: every function below is the body of
      one critical section, run to completion. *)

From Stdlib Require Import ZArith Floats Lia.
From stdpp Require Import gmap strings list.

Local Open Scope Z_scope.

(** ** The parts of the Go language and run time the code relies on *)
Module Go.

Definition int_max : Z := 2 ^ 63 - 1.

(** Two's complement wrap-around of a 64-bit signed integer. *)
Definition wrap (z : Z) : Z := (z + 2 ^ 63) mod 2 ^ 64 - 2 ^ 63.

Inductive panic : Type :=
| IndexOutOfRange (index length : Z)
| IntegerDivideByZero
| MakesliceLenOutOfRange
| NilPointerDereference.

Inductive result (A : Type) : Type :=
| Ok (a : A)
| Panic (p : panic).
Arguments Ok {A} a.
Arguments Panic {A} p.

Definition bind {A B : Type} (r : result A) (k : A -> result B) : result B :=
  match r with
  | Ok a => k a
  | Panic p => Panic p
  end.

(** [a + b] on [int]. *)
Definition add (a b : Z) : Z := wrap (a + b).

(** [a % b] on [int]: the remainder has the sign of the dividend. *)
Definition rem (a b : Z) : result Z :=
  if decide (b = 0) then Panic IntegerDivideByZero else Ok (Z.rem a b).

(** [a / b] on [int64], for a divisor that is a non-zero constant:
    the quotient is truncated towards zero. *)
Definition quot (a b : Z) : Z := wrap (Z.quot a b).

(** [len(s)]. *)
Definition len {A : Type} (s : list A) : Z := Z.of_nat (length s).

(** [s[i]], read. *)
Definition index {A : Type} (s : list A) (i : Z) : result A :=
  if decide (0 <= i < len s) then
    match s !! Z.to_nat i with
    | Some x => Ok x
    | None => Panic (IndexOutOfRange i (len s))
    end
  else Panic (IndexOutOfRange i (len s)).

(** [s[i] = x]. *)
Definition store {A : Type} (s : list A) (i : Z) (x : A) : result (list A) :=
  if decide (0 <= i < len s) then Ok (<[Z.to_nat i := x]> s)
  else Panic (IndexOutOfRange i (len s)).

(** [make([]A, size, size)] and [make([]A, size)]: [size] copies of the
    zero value of [A]. A negative size panics; running out of memory
    is outside the model. *)
Definition make {A : Type} (zero : A) (size : Z) : result (list A) :=
  if decide (size < 0) then Panic MakesliceLenOutOfRange
  else Ok (replicate (Z.to_nat size) zero).

(** [append(s, x)]. *)
Definition append {A : Type} (s : list A) (x : A) : list A := s ++ [x].

End Go.

#[global] Instance result_bind : MBind Go.result :=
  fun A B k r => Go.bind r k.

(** ** time.Time *)

(** An instant is its number of nanoseconds since the Unix epoch, as an
    unbounded integer. *)
Definition Time : Type := Z.

(** The zero value [time.Time{}]: January 1 of year 1, 00:00:00 UTC. *)
Definition Time_zero : Time := -62135596800 * 1000000000.

(** [t.UnixNano()] is an [int64]: instants too far from the epoch wrap. *)
Definition UnixNano (t : Time) : Z := Go.wrap t.

(** ** Count and Metric *)

(** [type Count struct { N float64; T time.Time }] *)
Record Count : Type := mkCount { Count_N : float; Count_T : Time }.

Definition Count_zero : Count := mkCount 0%float Time_zero.

(** [type Metric struct { m sync.Mutex; list []Count; head int }] *)
Record Metric : Type := mkMetric { Metric_list : list Count; Metric_head : Z }.

(** Modelled from the spec: the declaration of the type [row], which is
    not in metrics.go. The spec exports a row as a pair of a value and a
    timestamp in milliseconds; the companion program of the repository
    declares its [Row] as [[]interface{}], a slice type, whose zero value
    is nil. [iface] is the element type of such a row. *)
Inductive iface : Type :=
| Float64 (f : float)
| Int64 (z : Z).

Definition row : Type := list iface.

(** The zero value of the slice type [row] is [nil]. *)
Definition row_nil : row := [].

(** [row{count.N, count.T.UnixNano() / 1000000}] *)
Definition row_of_Count (count : Count) : row :=
  [Float64 (Count_N count); Int64 (Go.quot (UnixNano (Count_T count)) 1000000)].

(** [&Metric{list: make([]Count, size, size)}]: [head] is left at its
    zero value. *)
Definition new_Metric (size : Z) : Go.result Metric :=
  l ← Go.make Count_zero size;
  Go.Ok (mkMetric l 0).

(** [func (g *Metric) AddCount(c Count)] *)
Definition AddCount (g : Metric) (c : Count) : Go.result Metric :=
  l ← Go.store (Metric_list g) (Metric_head g) c;
  h ← Go.rem (Go.add (Metric_head g) 1) (Go.len l);
  Go.Ok (mkMetric l h).

(** [func (g *Metric) AddWithTime(n float64, t time.Time)] *)
Definition AddWithTime (g : Metric) (n : float) (t : Time) : Go.result Metric :=
  AddCount g (mkCount n t).

(** [func (g *Metric) Add(n float64)]; [now] is what [time.Now()]
    returns during the call. *)
Definition Add (g : Metric) (n : float) (now : Time) : Go.result Metric :=
  l ← Go.store (Metric_list g) (Metric_head g) (mkCount n now);
  h ← Go.rem (Go.add (Metric_head g) 1) (Go.len l);
  Go.Ok (mkMetric l h).

(** The [for] loop of [fetchDatapoints]: [todo] is the number of
    iterations left, [length - i]. *)
Fixpoint fetch_loop (g : Metric) (length head : Z) (todo : nat) (i : Z)
    (rows : list row) : Go.result (list row) :=
  match todo with
  | O => Go.Ok rows
  | S todo' =>
      idx ← Go.rem (Go.add i head) length;
      count ← Go.index (Metric_list g) idx;
      fetch_loop g length head todo' (Go.add i 1)
        (Go.append rows (row_of_Count count))
  end.

(** [func (g *Metric) fetchDatapoints() *[]row] *)
Definition fetchDatapoints (g : Metric) : Go.result (list row) :=
  let length := Go.len (Metric_list g) in
  let head := Metric_head g in
  rows ← Go.make row_nil length;
  fetch_loop g length head (Z.to_nat length) 0 rows.

(** A sequence of [Add] calls, each with the value it adds and the
    clock reading of that call. *)
Fixpoint Adds (g : Metric) (calls : list (float * Time)) : Go.result Metric :=
  match calls with
  | [] => Go.Ok g
  | (n, now) :: calls' => g' ← Add g n now; Adds g' calls'
  end.

(** Any of the three writing methods. *)
Inductive write : Type :=
| WAdd (n : float) (now : Time)
| WAddWithTime (n : float) (t : Time)
| WAddCount (c : Count).

Definition do_write (g : Metric) (w : write) : Go.result Metric :=
  match w with
  | WAdd n now => Add g n now
  | WAddWithTime n t => AddWithTime g n t
  | WAddCount c => AddCount g c
  end.

Fixpoint do_writes (g : Metric) (ws : list write) : Go.result Metric :=
  match ws with
  | [] => Go.Ok g
  | w :: ws' => g' ← do_write g w; do_writes g' ws'
  end.

(** The sample a write stores. *)
Definition written (w : write) : Count :=
  match w with
  | WAdd n now => mkCount n now
  | WAddWithTime n t => mkCount n t
  | WAddCount c => c
  end.

(** ** Metrics, the registry *)

(** A heap location. *)
Abbreviation loc := positive (only parsing).

(** A [*Metric]: [None] is [nil]. *)
Abbreviation ptr := (option loc) (only parsing).

(** An [error]: [None] is nil. *)
Abbreviation error := (option string) (only parsing).

(** [type Metrics struct { m sync.Mutex; metric map[string]*Metric }];
    the map is allocated (a write to a nil map is outside the model). *)
Record Metrics : Type := mkMetrics { metric : gmap string (option loc) }.

(** [func (m *Metrics) Get(target string)], returning a [*Metric] and an
    [error]. *)
Definition Get (m : Metrics) (target : string) : ptr * error :=
  match metric m !! target with
  | None => (None, Some ("no such metric: " +:+ target))
  | Some mt => (mt, None)
  end.

(** [func (m *Metrics) Put(target string, metric *Metric) error] *)
Definition Put (m : Metrics) (target : string) (mt : ptr) : Metrics * error :=
  match metric m !! target with
  | Some _ => (m, Some ("metric " +:+ target +:+ " already exists"))
  | None => (mkMetrics (<[target := mt]> (metric m)), None)
  end.

(** [func (m *Metrics) Delete(target string) error] *)
Definition Delete (m : Metrics) (target : string) : Metrics * error :=
  match metric m !! target with
  | None => (m, Some ("cannot delete metric: " +:+ target +:+ " does not exist"))
  | Some _ => (mkMetrics (<[target := None]> (metric m)), None)
  end.

(** [func (m *Metrics) Create(target string, size int)], returning a
    [*Metric] and an [error]; the new buffer is allocated at a fresh location of the heap [h], and
    the result of [Put] is dropped. *)
Definition Create (h : gmap loc Metric) (m : Metrics) (target : string) (size : Z)
    : Go.result (gmap loc Metric * Metrics * (ptr * error)) :=
  g ← new_Metric size;
  let p := fresh (dom h) in
  let h' := <[p := g]> h in
  let m' := fst (Put m target (Some p)) in
  Go.Ok (h', m', (Some p, None)).

(** A method of [*Metric] called through a pointer: a nil receiver
    panics at the first field access. *)
Definition deref (h : gmap loc Metric) (p : ptr) : Go.result Metric :=
  match p with
  | None => Go.Panic Go.NilPointerDereference
  | Some l =>
      match h !! l with
      | Some g => Go.Ok g
      | None => Go.Panic Go.NilPointerDereference
      end
  end.

(** The error values of the registry, by the failure they report. *)
Definition SeriesNotFound (target : string) (e : error) : Prop :=
  e = Some ("no such metric: " +:+ target)
  \/ e = Some ("cannot delete metric: " +:+ target +:+ " does not exist").

Definition SeriesAlreadyExists (target : string) (e : error) : Prop :=
  e = Some ("metric " +:+ target +:+ " already exists").

(** ** Views of a buffer *)

(** The slots of a buffer from the cursor onwards, wrapping around:
    the order in which [fetchDatapoints] walks them. *)
Definition walk (g : Metric) : list Count :=
  rotate (Z.to_nat (Metric_head g)) (Metric_list g).

(** The cursor is a valid index, and the length of the storage is an [int]. *)
Definition head_inv (g : Metric) : Prop :=
  0 <= Metric_head g < Go.len (Metric_list g)
  /\ Go.len (Metric_list g) <= Go.int_max.

(** The largest capacity for which the index sum [i + head] of
    [fetchDatapoints] cannot overflow. *)
Definition cap_max : Z := 2 ^ 62.

(** The last [n] elements of a list. *)
Definition lastn {A : Type} (n : nat) (l : list A) : list A :=
  drop (length l - n)%nat l.

(** ** Closed forms used by the proofs *)

(** The buffer a write leaves behind, when the cursor is a valid index. *)
Definition after_write (g : Metric) (c : Count) : Metric :=
  mkMetric (<[Z.to_nat (Metric_head g) := c]> (Metric_list g))
           ((Metric_head g + 1) mod Go.len (Metric_list g)).

(** The buffer a sequence of writes leaves behind. *)
Definition after_writes (g : Metric) (ws : list write) : Metric :=
  fold_left (fun g' w => after_write g' (written w)) ws g.

(** An [Add] call as a write, and the sample it stores. *)
Definition call_of (call : float * Time) : write := WAdd (fst call) (snd call).

Definition sample_of (call : float * Time) : Count :=
  mkCount (fst call) (snd call).

(** The buffer [new_Metric] builds for a size that is not negative. *)
Definition fresh_Metric (size : Z) : Metric :=
  mkMetric (replicate (Z.to_nat size) Count_zero) 0.

(** ** The companion program (package main of the same repository) *)

(** [copy(dst, src)]: the first [min(len(dst), len(src))] elements of
    [dst] are overwritten with those of [src]. *)
Definition slice_copy {A : Type} (dst src : list A) : list A :=
  take (Nat.min (length dst) (length src)) src
  ++ drop (Nat.min (length dst) (length src)) dst.

(** The companion program declares [Count], [Metric] and [Row] as the
    package does, and has its own constructor, writers and snapshot.
    When a writer panics half-way, the writes made so far are lost with
    the state: a panic carries no buffer. *)
Module Example.

(** [func NewMetric(name string, size int) *Metric] *)
Definition NewMetric (name : string) (size : Z) : Go.result Metric :=
  l ← Go.make Count_zero size;
  Go.Ok (mkMetric l 0).

(** [func (g *Metric) Add(n float64)] *)
Definition Add (g : Metric) (n : float) (now : Time) : Go.result Metric :=
  l ← Go.store (Metric_list g) (Metric_head g) (mkCount n now);
  h ← Go.rem (Go.add (Metric_head g) 1) (Go.len l);
  Go.Ok (mkMetric l h).

(** [func (g *Metric) AddList(c []Count)] *)
Fixpoint AddList (g : Metric) (c : list Count) : Go.result Metric :=
  match c with
  | [] => Go.Ok g
  | el :: c' =>
      l ← Go.store (Metric_list g) (Metric_head g) el;
      h ← Go.rem (Go.add (Metric_head g) 1) (Go.len l);
      AddList (mkMetric l h) c'
  end.


(** The [for] loop of [fetchMetric], over the copy [gcnt]. *)
Fixpoint fetchMetric_loop (gcnt : list Count) (length head : Z) (todo : nat)
    (i : Z) (rows : list row) : Go.result (list row) :=
  match todo with
  | O => Go.Ok rows
  | S todo' =>
      idx ← Go.rem (Go.add i head) length;
      count ← Go.index gcnt idx;
      fetchMetric_loop gcnt length head todo' (Go.add i 1)
        (Go.append rows (row_of_Count count))
  end.

(** [func (g *Metric) fetchMetric() *[]Row] *)
Definition fetchMetric (g : Metric) : Go.result (list row) :=
  let length := Go.len (Metric_list g) in
  gcnt ← Go.make Count_zero length;
  let head := Metric_head g in
  let gcnt := slice_copy gcnt (Metric_list g) in
  fetchMetric_loop gcnt length head (Z.to_nat length) 0 [].

End Example.

(** ** Calls through pointers, and sequences of registry calls *)

(** A method with a pointer receiver, called on [p]: the buffer at [p]
    is replaced by the one the method leaves. *)
Definition call_on (h : gmap loc Metric) (p : ptr)
    (method : Metric -> Go.result Metric) : Go.result (gmap loc Metric) :=
  match p with
  | None => Go.Panic Go.NilPointerDereference
  | Some l =>
      g ← deref h p;
      g' ← method g;
      Go.Ok (<[l := g']> h)
  end.

(** A call of one of the four methods of [*Metrics]. *)
Inductive regcall : Type :=
| RGet (target : string)
| RPut (target : string) (mt : option positive)
| RDelete (target : string)
| RCreate (target : string) (size : Z).

(** The name a call is about. *)
Definition target_of (c : regcall) : string :=
  match c with
  | RGet target => target
  | RPut target _ => target
  | RDelete target => target
  | RCreate target _ => target
  end.

(** The heap and the registry a call leaves; what it returns is dropped. *)
Definition regstep (s : gmap loc Metric * Metrics) (c : regcall)
    : Go.result (gmap loc Metric * Metrics) :=
  match c with
  | RGet target => Go.Ok s
  | RPut target mt => Go.Ok (fst s, fst (Put (snd s) target mt))
  | RDelete target => Go.Ok (fst s, fst (Delete (snd s) target))
  | RCreate target size =>
      r ← Create (fst s) (snd s) target size;
      Go.Ok (fst r)
  end.

Fixpoint regrun (s : gmap loc Metric * Metrics) (cs : list regcall)
    : Go.result (gmap loc Metric * Metrics) :=
  match cs with
  | [] => Go.Ok s
  | c :: cs' => s' ← regstep s c; regrun s' cs'
  end.

(** No call of the sequence asks [make] for a negative size. *)
Definition sizes_ok (cs : list regcall) : Prop :=
  forall target size, In (RCreate target size) cs -> 0 <= size.

(** Every buffer the registry names is allocated. *)
Definition names_allocated (h : gmap loc Metric) (m : Metrics) : Prop :=
  forall target l, metric m !! target = Some (Some l) -> is_Some (h !! l).

(** The millisecond timestamp of an exported row. *)
Definition row_ms (r : row) : option Z :=
  match r with
  | [_; Int64 ms] => Some ms
  | _ => None
  end.

(** ** Arithmetic of the run time *)

Lemma wrap_small z : - 2 ^ 63 <= z <= Go.int_max -> Go.wrap z = z.
Proof.
  unfold Go.wrap, Go.int_max. intros Hz.
  rewrite Z.mod_small by lia. lia.
Qed.

Lemma add_small a b :
  - 2 ^ 63 <= a + b <= Go.int_max -> Go.add a b = a + b.
Proof. apply wrap_small. Qed.

Lemma rem_nonneg a b :
  0 <= a -> 0 < b -> Go.rem a b = Go.Ok (a mod b).
Proof.
  intros Ha Hb. unfold Go.rem.
  destruct (decide (b = 0)) as [->|_]; [lia|].
  by rewrite Z.rem_mod_nonneg by lia.
Qed.

Lemma index_lookup {A} (s : list A) (i : Z) (x : A) :
  0 <= i -> s !! Z.to_nat i = Some x -> Go.index s i = Go.Ok x.
Proof.
  intros Hi Hx. unfold Go.index.
  pose proof (lookup_lt_Some _ _ _ Hx) as Hlt.
  destruct (decide (0 <= i < Go.len s)) as [_|Hn].
  - by rewrite Hx.
  - unfold Go.len in Hn. lia.
Qed.

Lemma make_nonneg {A} (zero : A) (size : Z) :
  0 <= size -> Go.make zero size = Go.Ok (replicate (Z.to_nat size) zero).
Proof.
  intros Hs. unfold Go.make.
  destruct (decide (size < 0)); [lia|done].
Qed.

(** ** Rotations *)

Lemma rotate_mod {A} (n : nat) (l : list A) :
  rotate (n mod length l) l = rotate n l.
Proof.
  unfold rotate. destruct l as [|x l]; [done|].
  by rewrite Nat.Div0.mod_mod.
Qed.

Lemma rotate_length_app {A} (l1 l2 : list A) :
  rotate (length l1) (l1 ++ l2) = l2 ++ l1.
Proof.
  unfold rotate. destruct l2 as [|y l2].
  - rewrite app_nil_r. destruct l1 as [|x l1]; [done|].
    rewrite Nat.Div0.mod_same. by rewrite drop_0, take_0, app_nil_r.
  - rewrite Nat.mod_small by (rewrite length_app; simpl; lia).
    by rewrite drop_app_length, take_app_length.
Qed.

Lemma rotate_insert_next {A} (l : list A) (h : nat) (c : A) :
  (h < length l)%nat ->
  rotate (S h) (<[h := c]> l) = drop 1 (rotate h l) ++ [c].
Proof.
  intros Hlt.
  destruct (lookup_lt_is_Some_2 l h Hlt) as [x Hx].
  pose proof (take_drop_middle l h x Hx) as Hsplit.
  assert (Hfront : length (take h l) = h) by (rewrite length_take; lia).
  remember (take h l) as front eqn:Ef. remember (drop (S h) l) as back eqn:Eb.
  clear Ef Eb Hx Hlt. subst l h.
  rewrite insert_app_r_alt, Nat.sub_diag by lia. cbn [insert list_insert].
  rewrite rotate_length_app. cbn. rewrite drop_0.
  change (front ++ c :: back) with (front ++ [c] ++ back).
  rewrite (assoc_L (++)).
  replace (S (length front)) with (length (front ++ [c]))
    by (rewrite length_app; cbn; lia).
  rewrite rotate_length_app. by rewrite (assoc_L (++)).
Qed.

(** ** One write *)

Lemma AddCount_ok g c :
  head_inv g -> AddCount g c = Go.Ok (after_write g c).
Proof.
  intros [Hh Hl]. unfold AddCount, Go.store, after_write.
  destruct (decide (0 <= Metric_head g < Go.len (Metric_list g))) as [_|Hn];
    [|lia].
  cbn. unfold Go.len in *. rewrite length_insert.
  rewrite add_small by (unfold Go.int_max in *; lia).
  rewrite rem_nonneg by lia. done.
Qed.

Lemma Add_is_AddCount g n now : Add g n now = AddCount g (mkCount n now).
Proof. reflexivity. Qed.

Lemma do_write_ok g w :
  head_inv g -> do_write g w = Go.Ok (after_write g (written w)).
Proof.
  intros Hg. destruct w as [n now|n t|c]; cbn [do_write written].
  - rewrite Add_is_AddCount. by apply AddCount_ok.
  - unfold AddWithTime. by apply AddCount_ok.
  - by apply AddCount_ok.
Qed.

Lemma after_write_len g c :
  Go.len (Metric_list (after_write g c)) = Go.len (Metric_list g).
Proof. unfold after_write, Go.len. cbn. by rewrite length_insert. Qed.

Lemma after_write_inv g c : head_inv g -> head_inv (after_write g c).
Proof.
  intros [Hh Hl]. split; rewrite after_write_len; [|done].
  cbn. apply Z.mod_pos_bound. lia.
Qed.

Lemma after_write_walk g c :
  head_inv g -> walk (after_write g c) = drop 1 (walk g) ++ [c].
Proof.
  intros [Hh Hl]. unfold walk, after_write, Go.len in *. cbn.
  set (l := Metric_list g) in *. set (h := Z.to_nat (Metric_head g)).
  assert (Hlt : (h < length l)%nat) by lia.
  assert (Hn : Z.to_nat ((Metric_head g + 1) mod Z.of_nat (length l))
               = (S h mod length (<[h := c]> l))%nat).
  { rewrite length_insert.
    rewrite <- (Nat2Z.id (S h mod length l)).
    f_equal. rewrite Nat2Z.inj_mod. f_equal. lia. }
  rewrite Hn, rotate_mod. by apply rotate_insert_next.
Qed.

(** ** Sequences of writes *)

Lemma Adds_do_writes g calls : Adds g calls = do_writes g (map call_of calls).
Proof.
  revert g. induction calls as [|[n now] calls IH]; intros g; [done|].
  cbn. destruct (Add g n now) as [g'|p]; cbn; [apply IH|done].
Qed.

Lemma do_writes_ok g ws :
  head_inv g -> do_writes g ws = Go.Ok (after_writes g ws).
Proof.
  revert g. induction ws as [|w ws IH]; intros g Hg; [done|].
  cbn [do_writes after_writes fold_left].
  rewrite do_write_ok by done. cbn.
  apply IH. by apply after_write_inv.
Qed.

Lemma after_writes_inv g ws : head_inv g -> head_inv (after_writes g ws).
Proof.
  revert g. induction ws as [|w ws IH]; intros g Hg; [done|].
  unfold after_writes in *. cbn. apply IH. by apply after_write_inv.
Qed.

Lemma after_writes_len g ws :
  Go.len (Metric_list (after_writes g ws)) = Go.len (Metric_list g).
Proof.
  revert g. induction ws as [|w ws IH]; intros g; [done|].
  unfold after_writes in *. cbn. rewrite IH. apply after_write_len.
Qed.

Lemma walk_length g : length (walk g) = length (Metric_list g).
Proof. unfold walk. apply length_rotate. Qed.

Lemma after_writes_walk g ws :
  head_inv g ->
  walk (after_writes g ws) = drop (length ws) (walk g ++ map written ws).
Proof.
  revert g. induction ws as [|w ws IH]; intros g Hg.
  - cbn. by rewrite app_nil_r.
  - cbn [after_writes fold_left map length].
    change (fold_left _ ws ?g0) with (after_writes g0 ws).
    rewrite IH by (by apply after_write_inv).
    rewrite after_write_walk by done.
    destruct (walk g) as [|x v] eqn:Ev.
    + pose proof (walk_length g) as Hlen. rewrite Ev in Hlen.
      destruct Hg as [Hh _]. unfold Go.len in Hh. cbn in Hlen. lia.
    + cbn. rewrite drop_0. by rewrite <- (assoc_L (++)).
Qed.

(** ** The traversal of [fetchDatapoints] *)

Lemma walk_lookup g (i : nat) :
  head_inv g -> (i < length (Metric_list g))%nat ->
  walk g !! i
  = Metric_list g
      !! Z.to_nat ((Z.of_nat i + Metric_head g) mod Go.len (Metric_list g)).
Proof.
  intros [Hh _] Hi. unfold walk. rewrite lookup_rotate_r by done.
  f_equal. unfold rotate_nat_add, Go.len. f_equal. f_equal. lia.
Qed.

Lemma fetch_loop_ok g (todo : nat) (i : nat) (rows : list row) :
  head_inv g -> Go.len (Metric_list g) <= cap_max ->
  (i + todo = length (Metric_list g))%nat ->
  fetch_loop g (Go.len (Metric_list g)) (Metric_head g) todo (Z.of_nat i) rows
  = Go.Ok (rows ++ map row_of_Count (drop i (walk g))).
Proof.
  intros Hg Hcap. revert i rows.
  induction todo as [|todo IH]; intros i rows Hi.
  - cbn. rewrite drop_ge by (rewrite walk_length; lia).
    by rewrite app_nil_r.
  - pose proof Hg as [Hh Hl]. unfold Go.len, cap_max, Go.int_max in *.
    assert (Hlt : (i < length (Metric_list g))%nat) by lia.
    destruct (lookup_lt_is_Some_2 (walk g) i) as [count Hc];
      [by rewrite walk_length|].
    cbn [fetch_loop].
    rewrite (add_small (Z.of_nat i) (Metric_head g))
      by (unfold Go.int_max; lia).
    rewrite rem_nonneg by lia. cbn.
    rewrite (index_lookup _ _ count).
    + cbn. rewrite add_small by (unfold Go.int_max; lia).
      replace (Z.of_nat i + 1) with (Z.of_nat (S i)) by lia.
      rewrite IH by lia. unfold Go.append.
      rewrite (drop_S _ _ _ Hc). cbn.
      by rewrite <- (assoc_L (++)).
    + apply Z.mod_pos_bound. lia.
    + rewrite <- Hc. symmetry. by apply walk_lookup.
Qed.

Lemma fetchDatapoints_ok g :
  head_inv g -> Go.len (Metric_list g) <= cap_max ->
  fetchDatapoints g
  = Go.Ok (replicate (length (Metric_list g)) row_nil
           ++ map row_of_Count (walk g)).
Proof.
  intros Hg Hcap. unfold fetchDatapoints.
  rewrite make_nonneg by (unfold Go.len; lia). cbn.
  change 0 with (Z.of_nat 0).
  rewrite fetch_loop_ok by (done || (unfold Go.len; lia)).
  unfold Go.len. by rewrite drop_0, Nat2Z.id.
Qed.

(** ** A fresh buffer *)

Lemma new_Metric_ok size :
  0 <= size -> new_Metric size = Go.Ok (fresh_Metric size).
Proof. intros Hs. unfold new_Metric. by rewrite make_nonneg. Qed.

Lemma fresh_Metric_len size :
  0 <= size -> Go.len (Metric_list (fresh_Metric size)) = size.
Proof. intros Hs. unfold Go.len. cbn. rewrite length_replicate. lia. Qed.

Lemma fresh_Metric_inv size :
  1 <= size <= Go.int_max -> head_inv (fresh_Metric size).
Proof.
  intros Hs. unfold head_inv. rewrite fresh_Metric_len by lia.
  cbn. lia.
Qed.

Lemma fresh_Metric_walk size :
  walk (fresh_Metric size) = replicate (Z.to_nat size) Count_zero.
Proof. unfold walk. cbn. apply rotate_replicate. Qed.

(** What a snapshot is after any writes to a fresh buffer: as many nil
    rows as the buffer has slots, then the slots from the cursor on. *)
Lemma snapshot_after_writes size ws :
  1 <= size <= cap_max ->
  fetchDatapoints (after_writes (fresh_Metric size) ws)
  = Go.Ok (replicate (Z.to_nat size) row_nil
           ++ map row_of_Count
                (drop (length ws)
                   (replicate (Z.to_nat size) Count_zero ++ map written ws))).
Proof.
  intros Hs.
  assert (Hi : head_inv (fresh_Metric size))
    by (apply fresh_Metric_inv; unfold cap_max, Go.int_max in *; lia).
  pose proof (after_writes_len (fresh_Metric size) ws) as Hlen.
  rewrite fresh_Metric_len in Hlen by lia.
  rewrite fetchDatapoints_ok;
    [|by apply after_writes_inv|rewrite Hlen; lia].
  rewrite after_writes_walk, fresh_Metric_walk by done.
  unfold Go.len in Hlen.
  replace (length (Metric_list (after_writes (fresh_Metric size) ws)))
    with (Z.to_nat size) by lia.
  done.
Qed.

Lemma written_call_of calls : map written (map call_of calls) = map sample_of calls.
Proof. induction calls as [|[n now] calls IH]; [done|]. cbn. by rewrite IH. Qed.

Lemma map_replicate {A B} (f : A -> B) (n : nat) (x : A) :
  map f (replicate n x) = replicate n (f x).
Proof. induction n as [|n IH]; [done|]. cbn. by rewrite IH. Qed.

Lemma lastn_app_length {A} (n : nat) (l1 l2 : list A) :
  length l2 = n -> lastn n (l1 ++ l2) = l2.
Proof.
  intros Hn. unfold lastn. rewrite length_app, Hn.
  apply drop_app_length'. lia.
Qed.

(** A sequence of [Add] calls on a fresh buffer returns, and the snapshot
    of the buffer it leaves is known. *)
Lemma snapshot_after_Adds size calls :
  1 <= size <= cap_max ->
  Adds (fresh_Metric size) calls
  = Go.Ok (after_writes (fresh_Metric size) (map call_of calls))
  /\ fetchDatapoints (after_writes (fresh_Metric size) (map call_of calls))
     = Go.Ok (replicate (Z.to_nat size) row_nil
              ++ map row_of_Count
                   (drop (length calls)
                      (replicate (Z.to_nat size) Count_zero
                       ++ map sample_of calls))).
Proof.
  intros Hs. split.
  - rewrite Adds_do_writes. apply do_writes_ok, fresh_Metric_inv.
    unfold cap_max, Go.int_max in *. lia.
  - rewrite snapshot_after_writes by done.
    by rewrite written_call_of, length_map.
Qed.

(** Once every slot has been written, the slots from the cursor on are
    the last [size] samples, oldest first. *)
Lemma snapshot_full size (k : nat) calls :
  1 <= size <= cap_max ->
  length calls = (Z.to_nat size + k)%nat ->
  fetchDatapoints (after_writes (fresh_Metric size) (map call_of calls))
  = Go.Ok (replicate (Z.to_nat size) row_nil
           ++ map row_of_Count (map sample_of (drop k calls))).
Proof.
  intros Hs Hk. destruct (snapshot_after_Adds size calls Hs) as [_ ->].
  rewrite Hk, drop_app_add' by (by rewrite length_replicate).
  by rewrite skipn_map.
Qed.

(** ** The cursor stays a valid index *)

(** C8. For every buffer of capacity [size >= 1]: the buffer [Create]
    returns has [0 <= head < size]; on any buffer of that capacity whose
    cursor is in range, each of [Add], [AddWithTime] and [AddCount]
    returns and leaves a buffer of the same capacity with its cursor in
    range; hence so does any sequence of them on the created buffer. *)
Theorem head_in_range h m target size :
  1 <= size <= Go.int_max ->
  (exists p g0 m',
     Create h m target size = Go.Ok (<[p := g0]> h, m', (Some p, None))
     /\ Go.len (Metric_list g0) = size
     /\ 0 <= Metric_head g0 < size
     /\ forall ws, exists g,
          do_writes g0 ws = Go.Ok g
          /\ Go.len (Metric_list g) = size
          /\ 0 <= Metric_head g < size)
  /\ (forall g w,
        Go.len (Metric_list g) = size ->
        0 <= Metric_head g < size ->
        exists g',
          do_write g w = Go.Ok g'
          /\ Go.len (Metric_list g') = size
          /\ 0 <= Metric_head g' < size).
Proof.
  intros Hs. split.
  - exists (fresh (dom h)), (fresh_Metric size),
      (fst (Put m target (Some (fresh (dom h))))).
    pose proof (fresh_Metric_inv size Hs) as Hinv.
    pose proof (fresh_Metric_len size ltac:(lia)) as Hlen.
    split; [|split; [done|split; [cbn; lia|]]].
    + unfold Create. by rewrite new_Metric_ok by lia.
    + intros ws. exists (after_writes (fresh_Metric size) ws).
      split; [by apply do_writes_ok|].
      pose proof (after_writes_inv _ ws Hinv) as [Hh _].
      rewrite after_writes_len, Hlen in *. done.
  - intros g w Hlen Hh.
    assert (Hinv : head_inv g) by (unfold head_inv; lia).
    exists (after_write g (written w)).
    split; [by apply do_write_ok|].
    pose proof (after_write_inv g (written w) Hinv) as [Hh' _].
    rewrite after_write_len, Hlen in *. done.
Qed.

Lemma head_in_range_witness :
  exists p g0 m',
    Create ∅ (mkMetrics ∅) "cpu" 3 = Go.Ok (<[p := g0]> ∅, m', (Some p, None))
    /\ Go.len (Metric_list g0) = 3
    /\ 0 <= Metric_head g0 < 3
    /\ forall ws, exists g,
         do_writes g0 ws = Go.Ok g
         /\ Go.len (Metric_list g) = 3
         /\ 0 <= Metric_head g < 3.
Proof.
  apply (head_in_range ∅ (mkMetrics ∅) "cpu" 3).
  unfold Go.int_max. lia.
Defined.

(** ** The length of a snapshot *)

(** C1, as stated, fails: capacity 2 and one [Add] give a snapshot of
    four rows, not [min 1 2 = 1]. *)
Lemma snapshot_length_counterexample :
  (g0 ← new_Metric 2; g ← Adds g0 [(7%float, 1000000)]; fetchDatapoints g)
  = Go.Ok [row_nil; row_nil; row_of_Count Count_zero;
           row_of_Count (mkCount 7 1000000)]
  /\ length [row_nil; row_nil; row_of_Count Count_zero;
             row_of_Count (mkCount 7 1000000)] <> Nat.min 1 2.
Proof. split; [reflexivity|cbn; lia]. Qed.

(** C1, amended. For every capacity [1 <= C <= 2^62] and every sequence
    of [Add] calls on a freshly created buffer of capacity [C],
    [fetchDatapoints] returns, and the length of the snapshot does not
    depend on the number of calls: it is the length of the snapshot of
    the fresh buffer and at least [C], since the traversal appends one
    row for each of the [C] slots, written or not, to the rows it
    starts from. *)
Theorem snapshot_length (C : Z) (calls : list (float * Time)) :
  1 <= C <= cap_max ->
  exists g0 g rows0 rows,
    new_Metric C = Go.Ok g0
    /\ Adds g0 calls = Go.Ok g
    /\ fetchDatapoints g0 = Go.Ok rows0
    /\ fetchDatapoints g = Go.Ok rows
    /\ length rows = length rows0
    /\ (Z.to_nat C <= length rows)%nat
    /\ forall start, exists appended,
         fetch_loop g (Go.len (Metric_list g)) (Metric_head g)
           (Z.to_nat (Go.len (Metric_list g))) 0 start
         = Go.Ok (start ++ appended)
         /\ length appended = Z.to_nat C.
Proof.
  intros HC.
  assert (HC' : 1 <= C <= Go.int_max)
    by (unfold cap_max, Go.int_max in *; lia).
  destruct (snapshot_after_Adds C calls HC) as [Hadds Hrows].
  destruct (snapshot_after_Adds C [] HC) as [_ Hrows0].
  set (g := after_writes (fresh_Metric C) (map call_of calls)) in *.
  assert (Hinv : head_inv g) by (by apply after_writes_inv, fresh_Metric_inv).
  assert (Hlen : Go.len (Metric_list g) = C)
    by (unfold g; rewrite after_writes_len; apply fresh_Metric_len; lia).
  eexists (fresh_Metric C), g, _, _.
  split; [apply new_Metric_ok; lia|].
  split; [done|]. split; [exact Hrows0|]. split; [exact Hrows|].
  assert (Hwalk : length (walk g) = Z.to_nat C)
    by (rewrite walk_length; unfold Go.len in Hlen; lia).
  split; [|split].
  - rewrite !length_app, !length_map, !length_drop, !length_app,
      !length_replicate, !length_map. cbn. lia.
  - rewrite length_app, length_replicate. lia.
  - intros start. exists (map row_of_Count (walk g)).
    split; [|by rewrite length_map].
    change 0 with (Z.of_nat 0).
    rewrite fetch_loop_ok; [by rewrite drop_0|done|rewrite Hlen; lia|].
    unfold Go.len. lia.
Qed.

Lemma snapshot_length_witness :
  exists g0 g rows0 rows,
    new_Metric 2 = Go.Ok g0
    /\ Adds g0 [(7%float, 1000000); (8%float, 2000000); (9%float, 3000000)]
       = Go.Ok g
    /\ fetchDatapoints g0 = Go.Ok rows0
    /\ fetchDatapoints g = Go.Ok rows
    /\ length rows = length rows0
    /\ (Z.to_nat 2 <= length rows)%nat
    /\ forall start, exists appended,
         fetch_loop g (Go.len (Metric_list g)) (Metric_head g)
           (Z.to_nat (Go.len (Metric_list g))) 0 start
         = Go.Ok (start ++ appended)
         /\ length appended = Z.to_nat 2.
Proof.
  apply (snapshot_length 2
           [(7%float, 1000000); (8%float, 2000000); (9%float, 3000000)]).
  unfold cap_max. lia.
Defined.

(** ** The snapshot of a buffer that has wrapped *)

(** C2, at capacity 3 after [Add(1)], [Add(2)], [Add(3)], [Add(4)]: the
    snapshot is three nil rows followed by the rows of 2, 3 and 4, and
    so is not the sequence of the rows of 2, 3 and 4. *)
Theorem snapshot_wrapped_leading_rows (t1 t2 t3 t4 : Time) :
  (g0 ← new_Metric 3;
   g ← Adds g0 [(1%float, t1); (2%float, t2); (3%float, t3); (4%float, t4)];
   fetchDatapoints g)
  = Go.Ok ([row_nil; row_nil; row_nil]
           ++ map row_of_Count [mkCount 2 t2; mkCount 3 t3; mkCount 4 t4])
  /\ (g0 ← new_Metric 3;
      g ← Adds g0 [(1%float, t1); (2%float, t2); (3%float, t3); (4%float, t4)];
      fetchDatapoints g)
     <> Go.Ok (map row_of_Count [mkCount 2 t2; mkCount 3 t3; mkCount 4 t4]).
Proof.
  assert (Heval :
    (g0 ← new_Metric 3;
     g ← Adds g0 [(1%float, t1); (2%float, t2); (3%float, t3); (4%float, t4)];
     fetchDatapoints g)
    = Go.Ok ([row_nil; row_nil; row_nil]
             ++ map row_of_Count [mkCount 2 t2; mkCount 3 t3; mkCount 4 t4]))
    by reflexivity.
  split; [exact Heval|]. rewrite Heval. cbn. intros Heq.
  injection Heq as Heq. discriminate Heq.
Qed.

(** ** The snapshot of a buffer that has not filled yet *)

(** C3, as stated, fails: capacity 5 with [Add(10)], [Add(20)] gives ten
    rows, among them the rows of the three slots never written, and not
    the two rows of 10 and 20. *)
Lemma snapshot_unfilled_counterexample :
  (g0 ← new_Metric 5;
   g ← Adds g0 [(10%float, 1000000); (20%float, 2000000)];
   fetchDatapoints g)
  = Go.Ok (replicate 5 row_nil
           ++ replicate 3 (row_of_Count Count_zero)
           ++ [row_of_Count (mkCount 10 1000000);
               row_of_Count (mkCount 20 2000000)])
  /\ replicate 5 row_nil
     ++ replicate 3 (row_of_Count Count_zero)
     ++ [row_of_Count (mkCount 10 1000000); row_of_Count (mkCount 20 2000000)]
     <> [row_of_Count (mkCount 10 1000000); row_of_Count (mkCount 20 2000000)].
Proof. split; [reflexivity|]. cbn. intros Heq. discriminate Heq. Qed.

(** C3, amended. For every capacity [1 <= C <= 2^62] and every [N < C],
    after [N] [Add] calls on a fresh buffer the snapshot ends with [C]
    rows, one for each slot: first the rows of the [C - N] slots never
    written, which hold the zero [Count], then the rows of the [N]
    inserted samples in write order. *)
Theorem snapshot_unfilled (C : Z) (calls : list (float * Time)) :
  1 <= C <= cap_max ->
  Z.of_nat (length calls) < C ->
  exists g0 g rows,
    new_Metric C = Go.Ok g0
    /\ Adds g0 calls = Go.Ok g
    /\ fetchDatapoints g = Go.Ok rows
    /\ lastn (Z.to_nat C) rows
       = replicate (Z.to_nat C - length calls) (row_of_Count Count_zero)
         ++ map row_of_Count (map sample_of calls).
Proof.
  intros HC HN.
  destruct (snapshot_after_Adds C calls HC) as [Hadds Hrows].
  eexists (fresh_Metric C), _, _.
  split; [apply new_Metric_ok; lia|].
  split; [exact Hadds|]. split; [exact Hrows|].
  rewrite drop_app_le by (rewrite length_replicate; lia).
  rewrite drop_replicate, map_app, map_replicate.
  apply lastn_app_length.
  rewrite length_app, length_replicate, !length_map. lia.
Qed.

Lemma snapshot_unfilled_witness :
  exists g0 g rows,
    new_Metric 5 = Go.Ok g0
    /\ Adds g0 [(10%float, 1000000); (20%float, 2000000)] = Go.Ok g
    /\ fetchDatapoints g = Go.Ok rows
    /\ lastn (Z.to_nat 5) rows
       = replicate (Z.to_nat 5 - 2) (row_of_Count Count_zero)
         ++ map row_of_Count
              (map sample_of [(10%float, 1000000); (20%float, 2000000)]).
Proof.
  apply (snapshot_unfilled 5 [(10%float, 1000000); (20%float, 2000000)]).
  - unfold cap_max. lia.
  - cbn. lia.
Defined.

(** ** The registry *)

Lemma fresh_loc_unused (h : gmap loc Metric) : h !! fresh (dom h) = None.
Proof. apply not_elem_of_dom, is_fresh. Qed.

Lemma Create_ok h m target size :
  0 <= size ->
  Create h m target size
  = Go.Ok (<[fresh (dom h) := fresh_Metric size]> h,
           fst (Put m target (Some (fresh (dom h)))),
           (Some (fresh (dom h)), None)).
Proof. intros Hs. unfold Create. by rewrite new_Metric_ok. Qed.

Lemma Get_unregistered m target :
  metric m !! target = None ->
  Get m target = (None, Some ("no such metric: " +:+ target)).
Proof. intros Hm. unfold Get. by rewrite Hm. Qed.

Lemma Put_registered m target mt q :
  metric m !! target = Some mt ->
  Put m target q = (m, Some ("metric " +:+ target +:+ " already exists")).
Proof. intros Hm. unfold Put. by rewrite Hm. Qed.

Lemma Delete_registered m target mt :
  metric m !! target = Some mt ->
  Delete m target = (mkMetrics (<[target := None]> (metric m)), None).
Proof. intros Hm. unfold Delete. by rewrite Hm. Qed.

(** C4, on the code: a successful [Delete] leaves the key in the map,
    bound to nil. A later [Put] of the name is refused as already
    existing, and a later [Create] of the name returns a buffer and no
    error while the name stays bound to nil. *)
Theorem Delete_leaves_key m target mt :
  metric m !! target = Some mt ->
  exists m',
    Delete m target = (m', None)
    /\ metric m' !! target = Some None
    /\ (forall q,
          Put m' target q
          = (m', Some ("metric " +:+ target +:+ " already exists")))
    /\ (forall h size, 0 <= size ->
          exists p g,
            Create h m' target size
            = Go.Ok (<[p := g]> h, m', (Some p, None))).
Proof.
  intros Hm. exists (mkMetrics (<[target := None]> (metric m))).
  assert (Hkey : metric (mkMetrics (<[target := None]> (metric m))) !! target
                 = Some None) by (cbn; apply lookup_insert_eq).
  split; [by eapply Delete_registered|]. split; [exact Hkey|]. split.
  - intros q. by eapply Put_registered.
  - intros h size Hs. eexists _, _. rewrite Create_ok by done.
    by erewrite Put_registered.
Qed.

Lemma Delete_leaves_key_witness :
  exists m',
    Delete (mkMetrics {["x" := Some 1%positive]}) "x" = (m', None)
    /\ metric m' !! "x" = Some None
    /\ (forall q,
          Put m' "x" q = (m', Some ("metric " +:+ "x" +:+ " already exists")))
    /\ (forall h size, 0 <= size ->
          exists p g,
            Create h m' "x" size = Go.Ok (<[p := g]> h, m', (Some p, None))).
Proof.
  apply (Delete_leaves_key (mkMetrics {["x" := Some 1%positive]}) "x"
           (Some 1%positive)).
  reflexivity.
Defined.

(** C5, on the code: after a successful [Delete] of a name, [Get] of
    that name finds the key and returns a nil buffer with a nil error,
    not the error of a missing metric; a method called on the buffer it
    returned panics. *)
Theorem Get_after_Delete m target mt :
  metric m !! target = Some mt ->
  exists m',
    Delete m target = (m', None)
    /\ Get m' target = (None, None)
    /\ ~ SeriesNotFound target (snd (Get m' target))
    /\ forall h, deref h (fst (Get m' target))
                 = Go.Panic Go.NilPointerDereference.
Proof.
  intros Hm. exists (mkMetrics (<[target := None]> (metric m))).
  assert (Hget : Get (mkMetrics (<[target := None]> (metric m))) target
                 = (None, None)).
  { unfold Get. cbn. by rewrite lookup_insert_eq. }
  split; [by eapply Delete_registered|]. split; [exact Hget|].
  rewrite Hget. cbn. split; [|done].
  intros [He|He]; discriminate He.
Qed.

Lemma Get_after_Delete_witness :
  exists m',
    Delete (mkMetrics {["x" := Some 1%positive]}) "x" = (m', None)
    /\ Get m' "x" = (None, None)
    /\ ~ SeriesNotFound "x" (snd (Get m' "x"))
    /\ forall h, deref h (fst (Get m' "x")) = Go.Panic Go.NilPointerDereference.
Proof.
  apply (Get_after_Delete (mkMetrics {["x" := Some 1%positive]}) "x"
           (Some 1%positive)).
  reflexivity.
Defined.

(** C6, on the code: for a name bound to a live buffer [Put] is refused
    as already existing and leaves the registry as it was, and [Create]
    leaves the registry as it was too, but returns a new buffer with a
    nil error. *)
Theorem Create_existing_no_error h m target size p q :
  metric m !! target = Some (Some p) ->
  0 <= size ->
  Put m target q = (m, Some ("metric " +:+ target +:+ " already exists"))
  /\ SeriesAlreadyExists target (snd (Put m target q))
  /\ exists p' g,
       Create h m target size = Go.Ok (<[p' := g]> h, m, (Some p', None))
       /\ h !! p' = None
       /\ ~ SeriesAlreadyExists target None.
Proof.
  intros Hm Hs.
  pose proof (Put_registered m target (Some p) q Hm) as Hput.
  split; [exact Hput|]. split; [by rewrite Hput|].
  exists (fresh (dom h)), (fresh_Metric size).
  split; [|split; [apply fresh_loc_unused|intros He; discriminate He]].
  rewrite Create_ok by done. by erewrite Put_registered.
Qed.

Lemma Create_existing_no_error_witness :
  Put (mkMetrics {["x" := Some 1%positive]}) "x" (Some 2%positive)
  = (mkMetrics {["x" := Some 1%positive]},
     Some ("metric " +:+ "x" +:+ " already exists"))
  /\ SeriesAlreadyExists "x"
       (snd (Put (mkMetrics {["x" := Some 1%positive]}) "x" (Some 2%positive)))
  /\ exists p' g,
       Create {[1%positive := fresh_Metric 3]}
         (mkMetrics {["x" := Some 1%positive]}) "x" 3
       = Go.Ok (<[p' := g]> {[1%positive := fresh_Metric 3]},
                mkMetrics {["x" := Some 1%positive]}, (Some p', None))
       /\ ({[1%positive := fresh_Metric 3]} : gmap loc Metric) !! p' = None
       /\ ~ SeriesAlreadyExists "x" None.
Proof.
  apply (Create_existing_no_error {[1%positive := fresh_Metric 3]}
           (mkMetrics {["x" := Some 1%positive]}) "x" 3 1%positive
           (Some 2%positive)).
  - reflexivity.
  - lia.
Defined.

(** ** Capacities that are not positive *)

(** C7, as stated, fails: [Create] of capacity 0 under a free name
    returns a buffer with a nil error and registers it. *)
Lemma Create_zero_counterexample :
  Create ∅ (mkMetrics ∅) "x" 0
  = Go.Ok ({[1%positive := mkMetric [] 0]},
           mkMetrics {["x" := Some 1%positive]},
           (Some 1%positive, None))
  /\ metric (mkMetrics {["x" := Some 1%positive]}) !! "x" = Some (Some 1%positive).
Proof. split; reflexivity. Qed.

(** C7, amended. [Create] does not validate the capacity and returns no
    error for it. Under a free name: a negative size makes [make] panic,
    and nothing is returned or registered; a size of 0 or more gives a
    buffer of that many slots at a fresh location, registered under the
    name, with a nil error; and for a size of 1 or more every sequence
    of [Add], [AddWithTime] and [AddCount] calls returns and leaves the
    number of slots as it was. *)
Theorem Create_any_capacity h m target size ws :
  size <= Go.int_max ->
  metric m !! target = None ->
  if decide (size < 0) then
    Create h m target size = Go.Panic Go.MakesliceLenOutOfRange
  else
    exists p g,
      h !! p = None
      /\ Create h m target size
         = Go.Ok (<[p := g]> h, mkMetrics (<[target := Some p]> (metric m)),
                  (Some p, None))
      /\ Go.len (Metric_list g) = size
      /\ (1 <= size ->
          exists g', do_writes g ws = Go.Ok g'
                     /\ Go.len (Metric_list g') = size).
Proof.
  intros Hmax Hfree. destruct (decide (size < 0)) as [Hneg|Hpos].
  - unfold Create, new_Metric, Go.make.
    destruct (decide (size < 0)); [done|lia].
  - exists (fresh (dom h)), (fresh_Metric size).
    split; [apply fresh_loc_unused|]. split; [|split].
    + rewrite Create_ok by lia. unfold Put. by rewrite Hfree.
    + apply fresh_Metric_len. lia.
    + intros Hs. exists (after_writes (fresh_Metric size) ws).
      split; [apply do_writes_ok, fresh_Metric_inv; lia|].
      rewrite after_writes_len. apply fresh_Metric_len. lia.
Qed.

Lemma Create_any_capacity_witness :
  exists p g,
    (∅ : gmap loc Metric) !! p = None
    /\ Create ∅ (mkMetrics ∅) "x" 3
       = Go.Ok (<[p := g]> ∅, mkMetrics (<[ "x" := Some p]> ∅), (Some p, None))
    /\ Go.len (Metric_list g) = 3
    /\ (1 <= 3 ->
        exists g', do_writes g [WAdd 1 1000000; WAddCount (mkCount 2 2000000)]
                   = Go.Ok g'
                   /\ Go.len (Metric_list g') = 3).
Proof.
  apply (Create_any_capacity ∅ (mkMetrics ∅) "x" 3
           [WAdd 1 1000000; WAddCount (mkCount 2 2000000)]).
  - unfold Go.int_max. lia.
  - reflexivity.
Defined.

(** C10, as stated, fails: on the buffer [Create] returns for size 0 an
    [Add] panics, but on the slot write, with an index out of range,
    and not on the head update with an integer division by zero. *)
Lemma Add_zero_capacity_counterexample :
  Create ∅ (mkMetrics ∅) "x" 0
  = Go.Ok ({[1%positive := mkMetric [] 0]},
           mkMetrics {["x" := Some 1%positive]},
           (Some 1%positive, None))
  /\ Add (mkMetric [] 0) 1 1000000 = Go.Panic (Go.IndexOutOfRange 0 0)
  /\ Add (mkMetric [] 0) 1 1000000 <> Go.Panic Go.IntegerDivideByZero.
Proof.
  split; [reflexivity|]. split; [reflexivity|].
  intros Heq. discriminate Heq.
Qed.

(** C10, amended. [Create] accepts size 0 without error and returns a
    buffer whose list has length 0; on that buffer, and on every buffer
    with no slots, each of [Add], [AddWithTime] and [AddCount] panics
    with an index out of range on the write to the slot at the cursor,
    before the head update is reached, and returns no error value. *)
Theorem zero_capacity_writes_panic h m target (w : write) :
  (exists p g0 m',
     Create h m target 0 = Go.Ok (<[p := g0]> h, m', (Some p, None))
     /\ Go.len (Metric_list g0) = 0
     /\ do_write g0 w = Go.Panic (Go.IndexOutOfRange 0 0))
  /\ forall head,
       do_write (mkMetric [] head) w = Go.Panic (Go.IndexOutOfRange head 0).
Proof.
  assert (Hany : forall head,
    do_write (mkMetric [] head) w = Go.Panic (Go.IndexOutOfRange head 0)).
  { intros head.
    destruct w as [n now|n t|c];
      cbn [do_write]; unfold Add, AddWithTime, AddCount, Go.store; cbn;
      (destruct (decide (0 <= head < Go.len [])) as [Hr|_];
       [unfold Go.len in Hr; cbn in Hr; lia|done]). }
  split; [|exact Hany].
  exists (fresh (dom h)), (fresh_Metric 0),
    (fst (Put m target (Some (fresh (dom h))))).
  split; [by rewrite Create_ok|]. split; [done|]. apply Hany.
Qed.

(** ** More on writes *)

Lemma AddCount_cases g c :
  AddCount g c
  = if decide (0 <= Metric_head g < Go.len (Metric_list g)) then
      Go.Ok (mkMetric (<[Z.to_nat (Metric_head g) := c]> (Metric_list g))
               (Z.rem (Go.add (Metric_head g) 1) (Go.len (Metric_list g))))
    else Go.Panic (Go.IndexOutOfRange (Metric_head g) (Go.len (Metric_list g))).
Proof.
  unfold AddCount, Go.store.
  destruct (decide (0 <= Metric_head g < Go.len (Metric_list g))) as [Hr|Hr];
    [|done].
  cbn. unfold Go.rem, Go.len in *. rewrite length_insert.
  destruct (decide (Z.of_nat (length (Metric_list g)) = 0)); [lia|done].
Qed.

Lemma do_write_AddCount g w : do_write g w = AddCount g (written w).
Proof. by destruct w. Qed.

(** X1. [Add], [AddWithTime] and [AddCount] return exactly when the
    cursor is a valid index of the list, and then leave the number of
    slots as it was; otherwise they panic with an index out of range at
    the cursor. On no buffer do they panic with a division by zero. *)
Theorem write_returns_iff_cursor_valid g w :
  (if decide (0 <= Metric_head g < Go.len (Metric_list g)) then
     exists g', do_write g w = Go.Ok g'
                /\ Go.len (Metric_list g') = Go.len (Metric_list g)
   else
     do_write g w
     = Go.Panic (Go.IndexOutOfRange (Metric_head g) (Go.len (Metric_list g))))
  /\ do_write g w <> Go.Panic Go.IntegerDivideByZero.
Proof.
  rewrite do_write_AddCount, AddCount_cases.
  destruct (decide (0 <= Metric_head g < Go.len (Metric_list g))) as [Hr|Hr].
  - split; [|intros He; discriminate He].
    eexists. split; [done|]. unfold Go.len. cbn. by rewrite length_insert.
  - split; [done|]. intros He. discriminate He.
Qed.

(** X2. A write on a buffer whose cursor is a valid index stores its
    sample in the slot at the cursor and leaves every other slot as it
    was. *)
Theorem write_changes_cursor_slot_only g w :
  0 <= Metric_head g < Go.len (Metric_list g) ->
  exists g',
    do_write g w = Go.Ok g'
    /\ Metric_list g' !! Z.to_nat (Metric_head g) = Some (written w)
    /\ (forall i : nat,
          i <> Z.to_nat (Metric_head g) ->
          Metric_list g' !! i = Metric_list g !! i)
    /\ length (Metric_list g') = length (Metric_list g).
Proof.
  intros Hr. rewrite do_write_AddCount, AddCount_cases.
  destruct (decide (0 <= Metric_head g < Go.len (Metric_list g))); [|done].
  eexists. split; [done|]. cbn. unfold Go.len in Hr.
  split; [apply list_lookup_insert_eq; lia|].
  split; [|apply length_insert].
  intros i Hi. by apply list_lookup_insert_ne.
Qed.

Lemma write_changes_cursor_slot_only_witness :
  exists g',
    do_write (mkMetric [mkCount 1 10; mkCount 2 20; mkCount 3 30] 1)
      (WAdd 9 40) = Go.Ok g'
    /\ Metric_list g' !! Z.to_nat 1 = Some (mkCount 9 40)
    /\ (forall i : nat,
          i <> Z.to_nat 1 ->
          Metric_list g' !! i
          = [mkCount 1 10; mkCount 2 20; mkCount 3 30] !! i)
    /\ length (Metric_list g') = 3%nat.
Proof.
  apply (write_changes_cursor_slot_only
           (mkMetric [mkCount 1 10; mkCount 2 20; mkCount 3 30] 1) (WAdd 9 40)).
  unfold Go.len. cbn [Metric_list Metric_head length]. lia.
Defined.

Lemma after_writes_head g ws :
  head_inv g ->
  Metric_head (after_writes g ws)
  = (Metric_head g + Z.of_nat (length ws)) mod Go.len (Metric_list g).
Proof.
  revert g. induction ws as [|w ws IH]; intros g Hg.
  - cbn. rewrite Z.add_0_r. symmetry. apply Z.mod_small. apply Hg.
  - cbn [after_writes fold_left length].
    change (fold_left _ ws ?g0) with (after_writes g0 ws).
    rewrite IH by (by apply after_write_inv).
    rewrite after_write_len. cbn [after_write Metric_head].
    rewrite Zplus_mod_idemp_l. f_equal. lia.
Qed.

(** X3. On a buffer whose cursor is a valid index, any sequence of [N]
    writes returns, keeps the number of slots, and moves the cursor
    forward by [N] modulo the number of slots. *)
Theorem writes_advance_cursor g ws :
  head_inv g ->
  exists g',
    do_writes g ws = Go.Ok g'
    /\ Go.len (Metric_list g') = Go.len (Metric_list g)
    /\ Metric_head g'
       = (Metric_head g + Z.of_nat (length ws)) mod Go.len (Metric_list g).
Proof.
  intros Hg. exists (after_writes g ws).
  split; [by apply do_writes_ok|]. split; [apply after_writes_len|].
  by apply after_writes_head.
Qed.

Lemma writes_advance_cursor_witness :
  exists g',
    do_writes (mkMetric [mkCount 1 10; mkCount 2 20; mkCount 3 30] 2)
      [WAdd 7 40; WAddCount (mkCount 8 50)] = Go.Ok g'
    /\ Go.len (Metric_list g') = 3
    /\ Metric_head g' = (2 + Z.of_nat 2) mod 3.
Proof.
  apply (writes_advance_cursor
           (mkMetric [mkCount 1 10; mkCount 2 20; mkCount 3 30] 2)
           [WAdd 7 40; WAddCount (mkCount 8 50)]).
  unfold head_inv, Go.len, Go.int_max. cbn [Metric_list Metric_head length]. lia.
Defined.

(** X4. The buffer is a first-in first-out window: read from the cursor
    on, wrapping around, the slots after [N] writes are the slots before
    them followed by the [N] written samples, less the first [N] of that
    sequence. *)
Theorem writes_slide_window g ws :
  head_inv g ->
  exists g',
    do_writes g ws = Go.Ok g'
    /\ rotate (Z.to_nat (Metric_head g')) (Metric_list g')
       = drop (length ws)
           (rotate (Z.to_nat (Metric_head g)) (Metric_list g)
            ++ map written ws).
Proof.
  intros Hg. exists (after_writes g ws).
  split; [by apply do_writes_ok|]. by apply (after_writes_walk g ws).
Qed.

Lemma writes_slide_window_witness :
  exists g',
    do_writes (mkMetric [mkCount 1 10; mkCount 2 20; mkCount 3 30] 2)
      [WAdd 7 40; WAddCount (mkCount 8 50)] = Go.Ok g'
    /\ rotate (Z.to_nat (Metric_head g')) (Metric_list g')
       = drop 2
           (rotate (Z.to_nat 2) [mkCount 1 10; mkCount 2 20; mkCount 3 30]
            ++ map written [WAdd 7 40; WAddCount (mkCount 8 50)]).
Proof.
  apply (writes_slide_window
           (mkMetric [mkCount 1 10; mkCount 2 20; mkCount 3 30] 2)
           [WAdd 7 40; WAddCount (mkCount 8 50)]).
  unfold head_inv, Go.len, Go.int_max. cbn [Metric_list Metric_head length]. lia.
Defined.

(** X5. Once at least as many samples have been written as the buffer
    has slots, nothing of its earlier contents is left: from the cursor
    on, the slots are the last written samples, oldest first, whatever
    the buffer held and wherever its cursor was. *)
Theorem writes_evict_everything g ws :
  head_inv g ->
  (length (Metric_list g) <= length ws)%nat ->
  exists g',
    do_writes g ws = Go.Ok g'
    /\ rotate (Z.to_nat (Metric_head g')) (Metric_list g')
       = lastn (length (Metric_list g)) (map written ws).
Proof.
  intros Hg Hn. exists (after_writes g ws).
  split; [by apply do_writes_ok|].
  change (rotate _ _) with (walk (after_writes g ws)).
  rewrite after_writes_walk by done.
  rewrite drop_app_ge by (rewrite walk_length; lia).
  unfold lastn. rewrite walk_length, length_map. done.
Qed.

Lemma writes_evict_everything_witness :
  exists g',
    do_writes (mkMetric [mkCount 1 10; mkCount 2 20] 1)
      [WAdd 7 40; WAddCount (mkCount 8 50); WAddWithTime 9 60] = Go.Ok g'
    /\ rotate (Z.to_nat (Metric_head g')) (Metric_list g')
       = lastn 2
           (map written [WAdd 7 40; WAddCount (mkCount 8 50); WAddWithTime 9 60]).
Proof.
  apply (writes_evict_everything (mkMetric [mkCount 1 10; mkCount 2 20] 1)
           [WAdd 7 40; WAddCount (mkCount 8 50); WAddWithTime 9 60]).
  - unfold head_inv, Go.len, Go.int_max. cbn [Metric_list Metric_head length]. lia.
  - cbn. lia.
Defined.

(** ** The companion program *)

Lemma AddList_do_writes g cs :
  Example.AddList g cs = do_writes g (map WAddCount cs).
Proof.
  revert g. induction cs as [|el cs IH]; intros g; [done|].
  cbn [Example.AddList map do_writes do_write]. unfold AddCount.
  destruct (Go.store (Metric_list g) (Metric_head g) el) as [l|p]; [|done].
  cbn. destruct (Go.rem (Go.add (Metric_head g) 1) (Go.len l)) as [h|p];
    [|done].
  cbn. apply IH.
Qed.

Lemma written_WAddCount cs : map written (map WAddCount cs) = cs.
Proof. induction cs as [|c cs IH]; [done|]. cbn. by rewrite IH. Qed.


Lemma slice_copy_same_length {A} (dst src : list A) :
  length dst = length src -> slice_copy dst src = src.
Proof.
  intros Hl. unfold slice_copy. rewrite Hl, Nat.min_id.
  rewrite take_ge, drop_ge by lia. apply app_nil_r.
Qed.

Lemma fetchMetric_loop_fetch_loop g length head todo i rows :
  Example.fetchMetric_loop (Metric_list g) length head todo i rows
  = fetch_loop g length head todo i rows.
Proof.
  revert i rows. induction todo as [|todo IH]; intros i rows; [done|].
  cbn. destruct (Go.rem (Go.add i head) length) as [idx|p]; [|done].
  cbn. destruct (Go.index (Metric_list g) idx) as [count|p]; [|done].
  cbn. apply IH.
Qed.

Lemma fetchMetric_ok g :
  head_inv g -> Go.len (Metric_list g) <= cap_max ->
  Example.fetchMetric g = Go.Ok (map row_of_Count (walk g)).
Proof.
  intros Hg Hcap. unfold Example.fetchMetric.
  rewrite make_nonneg by (unfold Go.len; lia). cbn.
  rewrite slice_copy_same_length
    by (rewrite length_replicate; unfold Go.len; lia).
  rewrite fetchMetric_loop_fetch_loop.
  change 0 with (Z.of_nat 0).
  rewrite fetch_loop_ok by (done || (unfold Go.len; lia)).
  by rewrite drop_0.
Qed.

(** X7. On a buffer whose cursor is a valid index (and of at most 2^62
    slots), [fetchMetric] returns one row for each slot, in the order of
    the slots from the cursor on, wrapping around; [fetchDatapoints]
    returns as many nil rows as there are slots, followed by those same
    rows. *)
Theorem fetchDatapoints_is_nil_rows_then_fetchMetric g :
  head_inv g -> Go.len (Metric_list g) <= cap_max ->
  exists rows,
    Example.fetchMetric g = Go.Ok rows
    /\ rows
       = map row_of_Count
           (rotate (Z.to_nat (Metric_head g)) (Metric_list g))
    /\ length rows = length (Metric_list g)
    /\ fetchDatapoints g
       = Go.Ok (replicate (length (Metric_list g)) row_nil ++ rows).
Proof.
  intros Hg Hcap. exists (map row_of_Count (walk g)).
  split; [by apply fetchMetric_ok|]. split; [done|].
  split; [by rewrite length_map, walk_length|].
  by apply fetchDatapoints_ok.
Qed.

Lemma fetchDatapoints_is_nil_rows_then_fetchMetric_witness :
  exists rows,
    Example.fetchMetric (mkMetric [mkCount 1 10; mkCount 2 20; mkCount 3 30] 2)
    = Go.Ok rows
    /\ rows
       = map row_of_Count
           (rotate (Z.to_nat 2) [mkCount 1 10; mkCount 2 20; mkCount 3 30])
    /\ length rows = 3%nat
    /\ fetchDatapoints (mkMetric [mkCount 1 10; mkCount 2 20; mkCount 3 30] 2)
       = Go.Ok (replicate 3 row_nil ++ rows).
Proof.
  apply (fetchDatapoints_is_nil_rows_then_fetchMetric
           (mkMetric [mkCount 1 10; mkCount 2 20; mkCount 3 30] 2)).
  - unfold head_inv, Go.len, Go.int_max. cbn [Metric_list Metric_head length]. lia.
  - unfold Go.len, cap_max. cbn [Metric_list length]. lia.
Defined.

Lemma NewMetric_ok name size :
  0 <= size -> Example.NewMetric name size = Go.Ok (fresh_Metric size).
Proof. intros Hs. unfold Example.NewMetric. by rewrite make_nonneg. Qed.

Lemma fetchMetric_after_AddList name size cs :
  1 <= size <= cap_max ->
  Example.NewMetric name size = Go.Ok (fresh_Metric size)
  /\ Example.AddList (fresh_Metric size) cs
     = Go.Ok (after_writes (fresh_Metric size) (map WAddCount cs))
  /\ Example.fetchMetric (after_writes (fresh_Metric size) (map WAddCount cs))
     = Go.Ok (map row_of_Count
                (drop (length cs)
                   (replicate (Z.to_nat size) Count_zero ++ cs))).
Proof.
  intros Hs.
  assert (Hi : head_inv (fresh_Metric size))
    by (apply fresh_Metric_inv; unfold cap_max, Go.int_max in *; lia).
  split; [apply NewMetric_ok; lia|]. split.
  - rewrite AddList_do_writes. by apply do_writes_ok.
  - rewrite fetchMetric_ok.
    + rewrite after_writes_walk, fresh_Metric_walk by done.
      by rewrite written_WAddCount, length_map.
    + by apply after_writes_inv.
    + rewrite after_writes_len, fresh_Metric_len; lia.
Qed.

Lemma fetchMetric_returns_last_samples_aux name (C : Z) (k : nat) cs :
  1 <= C <= cap_max ->
  length cs = (Z.to_nat C + k)%nat ->
  Example.NewMetric name C = Go.Ok (fresh_Metric C)
  /\ Example.AddList (fresh_Metric C) cs
     = Go.Ok (after_writes (fresh_Metric C) (map WAddCount cs))
  /\ Example.fetchMetric (after_writes (fresh_Metric C) (map WAddCount cs))
     = Go.Ok (map row_of_Count (drop k cs)).
Proof.
  intros HC Hk.
  destruct (fetchMetric_after_AddList name C cs HC) as (Hnew & Hadd & Hrows).
  split; [exact Hnew|]. split; [exact Hadd|].
  rewrite Hrows, Hk. by rewrite drop_app_add' by (by rewrite length_replicate).
Qed.

(** X8. In the companion program, after [C + k] samples have been added
    to a new buffer of capacity [C] (at most 2^62), [fetchMetric]
    returns exactly the rows of the last [C] of them, oldest first. *)
Theorem fetchMetric_returns_last_samples name (C : Z) (k : nat) cs :
  1 <= C <= cap_max ->
  length cs = (Z.to_nat C + k)%nat ->
  exists g0 g,
    Example.NewMetric name C = Go.Ok g0
    /\ Example.AddList g0 cs = Go.Ok g
    /\ Example.fetchMetric g = Go.Ok (map row_of_Count (drop k cs)).
Proof.
  intros HC Hk.
  destruct (fetchMetric_after_AddList name C cs HC) as (Hnew & Hadd & Hrows).
  eexists _, _. split; [exact Hnew|]. split; [exact Hadd|].
  rewrite Hrows, Hk. by rewrite drop_app_add' by (by rewrite length_replicate).
Qed.

Lemma fetchMetric_returns_last_samples_witness :
  exists g0 g,
    Example.NewMetric "cpu" 3 = Go.Ok g0
    /\ Example.AddList g0
         [mkCount 1 10; mkCount 2 20; mkCount 3 30; mkCount 4 40] = Go.Ok g
    /\ Example.fetchMetric g
       = Go.Ok (map row_of_Count
                  (drop 1 [mkCount 1 10; mkCount 2 20; mkCount 3 30;
                           mkCount 4 40])).
Proof.
  apply (fetchMetric_returns_last_samples "cpu" 3 1
           [mkCount 1 10; mkCount 2 20; mkCount 3 30; mkCount 4 40]).
  - unfold cap_max. lia.
  - reflexivity.
Defined.

(** X9. In the companion program too, a buffer that has not filled
    shows its unwritten slots: after [N < C] samples, [fetchMetric]
    returns [C - N] rows of the zero [Count] followed by the rows of
    the [N] samples in the order they were added. *)
Theorem fetchMetric_shows_unwritten_slots name (C : Z) cs :
  1 <= C <= cap_max ->
  Z.of_nat (length cs) < C ->
  exists g0 g,
    Example.NewMetric name C = Go.Ok g0
    /\ Example.AddList g0 cs = Go.Ok g
    /\ Example.fetchMetric g
       = Go.Ok (replicate (Z.to_nat C - length cs) (row_of_Count Count_zero)
                ++ map row_of_Count cs).
Proof.
  intros HC HN.
  destruct (fetchMetric_after_AddList name C cs HC) as (Hnew & Hadd & Hrows).
  eexists _, _. split; [exact Hnew|]. split; [exact Hadd|].
  rewrite Hrows. rewrite drop_app_le by (rewrite length_replicate; lia).
  by rewrite drop_replicate, map_app, map_replicate.
Qed.

Lemma fetchMetric_shows_unwritten_slots_witness :
  exists g0 g,
    Example.NewMetric "cpu" 5 = Go.Ok g0
    /\ Example.AddList g0 [mkCount 10 10; mkCount 20 20] = Go.Ok g
    /\ Example.fetchMetric g
       = Go.Ok (replicate (Z.to_nat 5 - 2) (row_of_Count Count_zero)
                ++ map row_of_Count [mkCount 10 10; mkCount 20 20]).
Proof.
  apply (fetchMetric_shows_unwritten_slots "cpu" 5
           [mkCount 10 10; mkCount 20 20]).
  - unfold cap_max. lia.
  - cbn. lia.
Defined.

(** ** Timestamps of the exported rows *)

Lemma quot_UnixNano t :
  - 2 ^ 63 <= t <= Go.int_max ->
  Go.quot (UnixNano t) 1000000 = Z.quot t 1000000.
Proof.
  intros Hr. unfold UnixNano, Go.quot.
  rewrite (wrap_small t) by done.
  pose proof (Z.quot_rem' t 1000000) as Hqr.
  pose proof (Z.rem_bound_abs t 1000000 ltac:(lia)) as Hb.
  pose proof (Z.rem_sign_mul t 1000000 ltac:(lia)) as Hs.
  apply wrap_small. unfold Go.int_max in *. nia.
Qed.

Lemma row_ms_row_of_Count c :
  - 2 ^ 63 <= Count_T c <= Go.int_max ->
  row_ms (row_of_Count c) = Some (Z.quot (Count_T c) 1000000).
Proof. intros Hr. cbn [row_of_Count row_ms]. by rewrite quot_UnixNano. Qed.

(** X10. For a sample whose time is within the range of [UnixNano]
    (an [int64] of nanoseconds), the exported row holds the value
    unchanged and the time in milliseconds truncated towards zero: it
    is less than a millisecond away from the time of the sample, and
    never further from the epoch. *)
Theorem row_time_is_truncated_milliseconds c :
  - 2 ^ 63 <= Count_T c <= Go.int_max ->
  exists ms,
    row_of_Count c = [Float64 (Count_N c); Int64 ms]
    /\ Z.abs (Count_T c - ms * 1000000) < 1000000
    /\ Z.abs (ms * 1000000) <= Z.abs (Count_T c).
Proof.
  intros Hr. exists (Z.quot (Count_T c) 1000000).
  split; [unfold row_of_Count; by rewrite quot_UnixNano|].
  pose proof (Z.quot_rem' (Count_T c) 1000000) as Hqr.
  pose proof (Z.rem_bound_abs (Count_T c) 1000000 ltac:(lia)) as Hb.
  pose proof (Z.rem_sign_mul (Count_T c) 1000000 ltac:(lia)) as Hs.
  split; nia.
Qed.

Lemma row_time_is_truncated_milliseconds_witness :
  exists ms,
    row_of_Count (mkCount 7 1700000000123456789)
    = [Float64 7; Int64 ms]
    /\ Z.abs (1700000000123456789 - ms * 1000000) < 1000000
    /\ Z.abs (ms * 1000000) <= Z.abs 1700000000123456789.
Proof.
  apply (row_time_is_truncated_milliseconds (mkCount 7 1700000000123456789)).
  unfold Go.int_max. cbn [Count_T]. lia.
Defined.

Lemma row_ms_monotone c1 c2 :
  - 2 ^ 63 <= Count_T c1 -> Count_T c1 <= Count_T c2 ->
  Count_T c2 <= Go.int_max ->
  exists a b,
    row_ms (row_of_Count c1) = Some a
    /\ row_ms (row_of_Count c2) = Some b
    /\ a <= b.
Proof.
  intros H1 H12 H2. eexists _, _.
  split; [apply row_ms_row_of_Count; lia|].
  split; [apply row_ms_row_of_Count; lia|].
  apply Z.quot_le_mono; lia.
Qed.

(** X11. In the companion program, when the samples added to a new
    buffer carry times that never decrease (and are within the range of
    [UnixNano]), and the buffer has filled, the rows [fetchMetric]
    returns carry millisecond times that never decrease either. *)
Theorem fetchMetric_keeps_time_order name (C : Z) (k : nat) cs :
  1 <= C <= cap_max ->
  length cs = (Z.to_nat C + k)%nat ->
  (forall (i : nat) c, cs !! i = Some c ->
     - 2 ^ 63 <= Count_T c <= Go.int_max) ->
  (forall (i j : nat) ci cj,
     (i <= j)%nat -> cs !! i = Some ci -> cs !! j = Some cj ->
     Count_T ci <= Count_T cj) ->
  exists g0 g rows,
    Example.NewMetric name C = Go.Ok g0
    /\ Example.AddList g0 cs = Go.Ok g
    /\ Example.fetchMetric g = Go.Ok rows
    /\ length rows = Z.to_nat C
    /\ forall (i j : nat) ri rj,
         (i <= j)%nat -> rows !! i = Some ri -> rows !! j = Some rj ->
         exists a b, row_ms ri = Some a /\ row_ms rj = Some b /\ a <= b.
Proof.
  intros HC Hk Hrange Hord.
  destruct (fetchMetric_returns_last_samples_aux name C k cs HC Hk)
    as (Hnew & Hadd & Hrows).
  eexists _, _, _. split; [exact Hnew|]. split; [exact Hadd|].
  split; [exact Hrows|]. split.
  - rewrite length_map, length_drop. lia.
  - intros i j ri rj Hij Hi Hj.
    change (map row_of_Count (drop k cs)) with (row_of_Count <$> drop k cs)
      in Hi, Hj.
    rewrite list_lookup_fmap, lookup_drop in Hi, Hj.
    destruct (cs !! (k + i)%nat) as [ci|] eqn:Eci; [|discriminate Hi].
    destruct (cs !! (k + j)%nat) as [cj|] eqn:Ecj; [|discriminate Hj].
    cbn in Hi, Hj. injection Hi as <-. injection Hj as <-.
    apply row_ms_monotone.
    + apply (Hrange _ _ Eci).
    + apply (Hord (k + i)%nat (k + j)%nat); [lia|done..].
    + apply (Hrange _ _ Ecj).
Qed.

Lemma fetchMetric_keeps_time_order_witness :
  exists g0 g rows,
    Example.NewMetric "cpu" 2 = Go.Ok g0
    /\ Example.AddList g0 [mkCount 1 10; mkCount 2 2000000; mkCount 3 5000000]
       = Go.Ok g
    /\ Example.fetchMetric g = Go.Ok rows
    /\ length rows = Z.to_nat 2
    /\ forall (i j : nat) ri rj,
         (i <= j)%nat -> rows !! i = Some ri -> rows !! j = Some rj ->
         exists a b, row_ms ri = Some a /\ row_ms rj = Some b /\ a <= b.
Proof.
  apply (fetchMetric_keeps_time_order "cpu" 2 1
           [mkCount 1 10; mkCount 2 2000000; mkCount 3 5000000]).
  - unfold cap_max. lia.
  - reflexivity.
  - intros i c Hc. unfold Go.int_max.
    destruct i as [|[|[|i]]]; cbn in Hc; inversion Hc; subst; cbn; lia.
  - intros i j ci cj Hij Hi Hj.
    destruct i as [|[|[|i]]]; cbn in Hi; inversion Hi; subst;
      destruct j as [|[|[|j]]]; cbn in Hj; inversion Hj; subst; cbn; lia.
Defined.

(** ** More on the registry *)

(** X12. [Put] under a name the map does not hold returns no error, and
    [Get] of that name then returns the pointer that was put, with no
    error; what [Get] returns for any other name is as before. *)
Theorem Put_then_Get m target mt :
  metric m !! target = None ->
  exists m',
    Put m target mt = (m', None)
    /\ Get m' target = (mt, None)
    /\ forall other, other <> target -> Get m' other = Get m other.
Proof.
  intros Hfree. exists (mkMetrics (<[target := mt]> (metric m))).
  split; [unfold Put; by rewrite Hfree|]. split.
  - unfold Get. cbn. by rewrite lookup_insert_eq.
  - intros other Hne. unfold Get. cbn. by rewrite lookup_insert_ne.
Qed.

Lemma Put_then_Get_witness :
  exists m',
    Put (mkMetrics {["a" := Some 1%positive]}) "b" (Some 2%positive)
    = (m', None)
    /\ Get m' "b" = (Some 2%positive, None)
    /\ forall other, other <> "b" ->
         Get m' other = Get (mkMetrics {["a" := Some 1%positive]}) other.
Proof.
  apply (Put_then_Get (mkMetrics {["a" := Some 1%positive]}) "b"
           (Some 2%positive)).
  reflexivity.
Defined.

(** X13. [Get] and [Delete] return an error exactly when the map has no
    key for the name, [Put] exactly when it has one; a [Put] or a
    [Delete] that returns an error leaves the registry as it was. *)
Theorem registry_errors_iff_key m target mt :
  (snd (Get m target) = None <-> is_Some (metric m !! target))
  /\ (snd (Put m target mt) = None <-> metric m !! target = None)
  /\ (snd (Delete m target) = None <-> is_Some (metric m !! target))
  /\ (snd (Put m target mt) <> None -> fst (Put m target mt) = m)
  /\ (snd (Delete m target) <> None -> fst (Delete m target) = m).
Proof.
  unfold Get, Put, Delete.
  destruct (metric m !! target) as [v|] eqn:Ev; cbn.
  - repeat split; try done; intros; by eexists.
  - repeat split; try done; intros H; by destruct H.
Qed.

(** X14. A call of [Get], [Put], [Delete] or [Create] changes the
    binding of no name other than the one it is called with. *)
Theorem registry_call_touches_one_name s c s' other :
  regstep s c = Go.Ok s' ->
  other <> target_of c ->
  metric (snd s') !! other = metric (snd s) !! other.
Proof.
  destruct s as [h m]. intros Hstep Hne.
  destruct c as [t|t mt|t|t size]; cbn in *.
  - by injection Hstep as <-.
  - injection Hstep as <-. cbn. unfold Put.
    destruct (metric m !! t); cbn; [done|by rewrite lookup_insert_ne].
  - injection Hstep as <-. cbn. unfold Delete.
    destruct (metric m !! t); cbn; [by rewrite lookup_insert_ne|done].
  - unfold Create in Hstep.
    destruct (new_Metric size) as [g|p]; cbn in Hstep; [|discriminate Hstep].
    injection Hstep as <-. cbn. unfold Put.
    destruct (metric m !! t); cbn; [done|by rewrite lookup_insert_ne].
Qed.

Lemma registry_call_touches_one_name_witness :
  metric (snd (<[1%positive := fresh_Metric 3]> (∅ : gmap positive Metric),
               mkMetrics (<["b" := Some 1%positive]> {["a" := None]})))
    !! "a"
  = metric (snd (∅ : gmap positive Metric, mkMetrics {["a" := None]})) !! "a".
Proof.
  apply (registry_call_touches_one_name
           (∅, mkMetrics {["a" := None]}) (RCreate "b" 3)).
  - reflexivity.
  - cbn. intros He. discriminate He.
Defined.

Lemma sizes_ok_cons c cs :
  sizes_ok (c :: cs) -> sizes_ok cs.
Proof. intros H t size Hin. apply (H t size). by right. Qed.

Lemma regstep_ok s c :
  sizes_ok [c] ->
  exists s', regstep s c = Go.Ok s'.
Proof.
  intros Hs. destruct c as [t|t mt|t|t size]; cbn; try by eexists.
  rewrite Create_ok by (apply (Hs t size); by left). cbn. by eexists.
Qed.

Lemma regstep_binding s c s' target v :
  regstep s c = Go.Ok s' ->
  metric (snd s) !! target = Some v ->
  metric (snd s') !! target = Some v \/ metric (snd s') !! target = Some None.
Proof.
  intros Hstep Hv.
  destruct s as [h m]. destruct c as [t|t mt|t|t size]; cbn in *.
  - injection Hstep as <-. by left.
  - injection Hstep as <-. left. cbn. unfold Put.
    destruct (metric m !! t) eqn:Et; cbn; [done|].
    rewrite lookup_insert_ne; [done|]. intros <-. congruence.
  - injection Hstep as <-. cbn. unfold Delete.
    destruct (metric m !! t) eqn:Et; cbn; [|by left].
    destruct (decide (t = target)) as [->|Hne].
    + right. apply lookup_insert_eq.
    + left. by rewrite lookup_insert_ne.
  - unfold Create in Hstep.
    destruct (new_Metric size) as [g|p]; cbn in Hstep; [|discriminate Hstep].
    injection Hstep as <-. left. cbn. unfold Put.
    destruct (metric m !! t) eqn:Et; cbn; [done|].
    rewrite lookup_insert_ne; [done|]. intros <-. congruence.
Qed.

(** X15. Whatever sequence of [Get], [Put], [Delete] and [Create] calls
    follows (with no negative size), it returns, and a name the map
    holds stays in the map, bound either to what it was bound to or to
    nil: no call removes a key or rebinds a name to another buffer, and
    a name bound to nil stays bound to nil. *)
Theorem registry_binding_is_stable s cs target v :
  sizes_ok cs ->
  metric (snd s) !! target = Some v ->
  exists s',
    regrun s cs = Go.Ok s'
    /\ (metric (snd s') !! target = Some v
        \/ metric (snd s') !! target = Some None).
Proof.
  revert s v. induction cs as [|c cs IH]; intros s v Hs Hv.
  - exists s. split; [done|by left].
  - destruct (regstep_ok s c) as [s1 Hstep].
    { intros t size [->|[]]. apply (Hs t size). by left. }
    cbn [regrun]. rewrite Hstep. cbn.
    destruct (regstep_binding s c s1 target v Hstep Hv) as [H1|H1].
    + apply (IH s1 v (sizes_ok_cons _ _ Hs) H1).
    + destruct (IH s1 None (sizes_ok_cons _ _ Hs) H1) as (s' & Hrun & Hb).
      exists s'. split; [done|]. right. by destruct Hb.
Qed.

Lemma registry_binding_is_stable_witness :
  exists s',
    regrun (∅, mkMetrics {["x" := Some 1%positive]})
      [RDelete "x"; RCreate "x" 3; RPut "x" (Some 5%positive); RGet "x"]
    = Go.Ok s'
    /\ (metric (snd s') !! "x" = Some (Some 1%positive)
        \/ metric (snd s') !! "x" = Some None).
Proof.
  apply (registry_binding_is_stable (∅, mkMetrics {["x" := Some 1%positive]})
           [RDelete "x"; RCreate "x" 3; RPut "x" (Some 5%positive); RGet "x"]
           "x" (Some 1%positive)).
  - intros t size Hin. cbn in Hin.
    destruct Hin as [He|[He|[He|[He|[]]]]]; inversion He; lia.
  - reflexivity.
Defined.

Lemma regstep_keeps_buffers s c s' l g :
  regstep s c = Go.Ok s' ->
  fst s !! l = Some g -> fst s' !! l = Some g.
Proof.
  destruct s as [h m]. intros Hstep Hl.
  destruct c as [t|t mt|t|t size]; cbn in *;
    try (by injection Hstep as <-).
  unfold Create in Hstep.
  destruct (new_Metric size) as [g0|p]; cbn in Hstep; [|discriminate Hstep].
  injection Hstep as <-. cbn. rewrite lookup_insert_ne; [done|].
  intros <-. by rewrite fresh_loc_unused in Hl.
Qed.

(** X16. No sequence of registry calls (with no negative size) changes
    a buffer that is already allocated: [Create] allocates at a new
    location, and [Delete] only unbinds the name. *)
Theorem registry_calls_keep_buffers s cs l g :
  sizes_ok cs ->
  fst s !! l = Some g ->
  exists s', regrun s cs = Go.Ok s' /\ fst s' !! l = Some g.
Proof.
  revert s. induction cs as [|c cs IH]; intros s Hs Hl.
  - by exists s.
  - destruct (regstep_ok s c) as [s1 Hstep].
    { intros t size [->|[]]. apply (Hs t size). by left. }
    cbn [regrun]. rewrite Hstep. cbn.
    apply (IH s1 (sizes_ok_cons _ _ Hs)).
    by apply (regstep_keeps_buffers s c s1).
Qed.

Lemma registry_calls_keep_buffers_witness :
  exists s',
    regrun ({[1%positive := fresh_Metric 2]},
            mkMetrics {["x" := Some 1%positive]})
      [RCreate "y" 3; RDelete "x"; RCreate "x" 1]
    = Go.Ok s'
    /\ fst s' !! 1%positive = Some (fresh_Metric 2).
Proof.
  apply (registry_calls_keep_buffers
           ({[1%positive := fresh_Metric 2]},
            mkMetrics {["x" := Some 1%positive]})
           [RCreate "y" 3; RDelete "x"; RCreate "x" 1]).
  - intros t size Hin. cbn in Hin.
    destruct Hin as [He|[He|[He|[]]]]; inversion He; lia.
  - reflexivity.
Defined.

(** ** Buffers and the names that reach them *)

(** X17. [Create] under a name the map does not hold, with a size that
    is not negative, allocates a buffer at a location that was unused,
    with every slot the zero [Count] and the cursor at 0, and [Get] of
    the name then returns the pointer [Create] returned, with no error. *)
Theorem Create_then_Get h m target size :
  0 <= size ->
  metric m !! target = None ->
  exists p h' m',
    Create h m target size = Go.Ok (h', m', (Some p, None))
    /\ Get m' target = (Some p, None)
    /\ h !! p = None
    /\ deref h' (Some p)
       = Go.Ok (mkMetric (replicate (Z.to_nat size) Count_zero) 0).
Proof.
  intros Hs Hfree. eexists _, _, _.
  split; [by apply Create_ok|]. unfold Put. rewrite Hfree. cbn.
  split; [unfold Get; cbn; by rewrite lookup_insert_eq|].
  split; [apply fresh_loc_unused|].
  by rewrite lookup_insert_eq.
Qed.

Lemma Create_then_Get_witness :
  exists p h' m',
    Create ∅ (mkMetrics ∅) "cpu" 2 = Go.Ok (h', m', (Some p, None))
    /\ Get m' "cpu" = (Some p, None)
    /\ (∅ : gmap positive Metric) !! p = None
    /\ deref h' (Some p)
       = Go.Ok (mkMetric (replicate (Z.to_nat 2) Count_zero) 0).
Proof.
  apply (Create_then_Get ∅ (mkMetrics ∅) "cpu" 2).
  - lia.
  - reflexivity.
Defined.

(** X18. The pointer [Get] returns for a created name is the buffer
    [Create] returned: an [AddCount] called on the one is seen through
    the other, in slot 0 with the cursor moved to [1 mod size], and
    every other location of the heap is as it was before [Create]. *)
Theorem write_through_Get_is_seen h m target size c :
  1 <= size <= Go.int_max ->
  metric m !! target = None ->
  exists p h' m' h'' g,
    Create h m target size = Go.Ok (h', m', (Some p, None))
    /\ call_on h' (fst (Get m' target)) (fun g0 => AddCount g0 c)
       = Go.Ok h''
    /\ deref h'' (Some p) = Go.Ok g
    /\ Metric_list g !! 0%nat = Some c
    /\ Metric_head g = 1 mod size
    /\ forall l, l <> p -> h'' !! l = h !! l.
Proof.
  intros Hs Hfree.
  exists (fresh (dom h)), (<[fresh (dom h) := fresh_Metric size]> h),
    (mkMetrics (<[target := Some (fresh (dom h))]> (metric m))),
    (<[fresh (dom h) := after_write (fresh_Metric size) c]>
       (<[fresh (dom h) := fresh_Metric size]> h)),
    (after_write (fresh_Metric size) c).
  split.
  { rewrite Create_ok by lia. unfold Put. by rewrite Hfree. }
  split.
  { unfold Get. cbn [metric]. rewrite lookup_insert_eq. cbn [fst].
    unfold call_on, deref. rewrite lookup_insert_eq. cbn.
    rewrite AddCount_ok by (by apply fresh_Metric_inv). done. }
  split; [cbn; by rewrite lookup_insert_eq|].
  split.
  { cbn. apply list_lookup_insert_eq. rewrite length_replicate. lia. }
  split.
  { cbn [after_write Metric_head fresh_Metric].
    change (mkMetric (replicate (Z.to_nat size) Count_zero) 0)
      with (fresh_Metric size).
    rewrite fresh_Metric_len by lia. done. }
  intros l Hl. by rewrite !lookup_insert_ne.
Qed.

Lemma write_through_Get_is_seen_witness :
  exists p h' m' h'' g,
    Create ∅ (mkMetrics ∅) "cpu" 3 = Go.Ok (h', m', (Some p, None))
    /\ call_on h' (fst (Get m' "cpu"))
         (fun g0 => AddCount g0 (mkCount 7 1000000))
       = Go.Ok h''
    /\ deref h'' (Some p) = Go.Ok g
    /\ Metric_list g !! 0%nat = Some (mkCount 7 1000000)
    /\ Metric_head g = 1 mod 3
    /\ forall l, l <> p -> h'' !! l = (∅ : gmap positive Metric) !! l.
Proof.
  apply (write_through_Get_is_seen ∅ (mkMetrics ∅) "cpu" 3
           (mkCount 7 1000000)).
  - unfold Go.int_max. lia.
  - reflexivity.
Defined.

(** X19. When every buffer the registry names is allocated, so it is
    after [Create], and the buffer [Create] returns is shared with no
    other name; when the name was already in the map, no name at all
    reaches the buffer [Create] returns. *)
Theorem Create_buffer_is_unshared h m target size :
  0 <= size ->
  names_allocated h m ->
  exists p h' m',
    Create h m target size = Go.Ok (h', m', (Some p, None))
    /\ names_allocated h' m'
    /\ (forall other, other <> target -> metric m' !! other <> Some (Some p))
    /\ (is_Some (metric m !! target) ->
        forall name, metric m' !! name <> Some (Some p)).
Proof.
  intros Hs Halloc. eexists _, _, _.
  split; [by apply Create_ok|].
  assert (Hnew : forall name, metric m !! name <> Some (Some (fresh (dom h)))).
  { intros name Hname. destruct (Halloc _ _ Hname) as [g Hg].
    by rewrite fresh_loc_unused in Hg. }
  unfold Put. destruct (metric m !! target) as [v|] eqn:Ev; cbn.
  - split; [|split; [intros; apply Hnew|intros _; apply Hnew]].
    intros name l Hname. apply lookup_insert_is_Some'. right.
    by apply (Halloc name).
  - split; [|split; [|intros [? ?]; done]].
    + intros name l Hname. cbn [metric] in Hname.
      apply lookup_insert_is_Some'.
      destruct (decide (name = target)) as [->|Hne].
      * rewrite lookup_insert_eq in Hname. injection Hname as <-. by left.
      * rewrite lookup_insert_ne in Hname by done. right.
        by apply (Halloc name).
    + intros other Hne. rewrite lookup_insert_ne by done. apply Hnew.
Qed.

Lemma Create_buffer_is_unshared_witness :
  exists p h' m',
    Create {[1%positive := fresh_Metric 2]}
      (mkMetrics {["x" := Some 1%positive]}) "x" 3
    = Go.Ok (h', m', (Some p, None))
    /\ names_allocated h' m'
    /\ (forall other, other <> "x" -> metric m' !! other <> Some (Some p))
    /\ (is_Some (metric (mkMetrics {["x" := Some 1%positive]}) !! "x") ->
        forall name, metric m' !! name <> Some (Some p)).
Proof.
  apply (Create_buffer_is_unshared {[1%positive := fresh_Metric 2]}
           (mkMetrics {["x" := Some 1%positive]}) "x" 3).
  - lia.
  - intros name l Hname. cbn in Hname.
    destruct (decide (name = "x")) as [->|Hne].
    + rewrite lookup_singleton_eq in Hname. injection Hname as <-.
      rewrite lookup_singleton_eq. by eexists.
    + rewrite lookup_singleton_ne in Hname by done. discriminate Hname.
Defined.
